(** * A software rasterizer and its 3D math kernel

    Shallow embedding of [src/math3d/math3d.h] and [src/math3d/renderer.cpp]:
    the vector and matrix kernel, the camera and projection builders, the
    depth-tested framebuffer, the edge-function rasterizer and the flat-shaded
    cube driver.

    The C++ code computes on [float].  Every definition below is written once,
    over an abstract scalar type [F] carrying the operations the code uses
    (class [Scalar], and [Trig] for [cosf], [sinf], [tanf]).  Two instances are
    given: the real numbers (exact arithmetic, used for the algebraic
    properties) and IEEE-754 binary32 built from the Standard Library's
    [SpecFloat] (executable, with signed zeros, infinities and NaN). *)

From Stdlib Require Import ZArith Lia Reals Lra Psatz.
From Stdlib Require Import Floats.SpecFloat.
From stdpp Require Import base option list list_numbers.

Local Open Scope Z_scope.

(** ** The scalar interface *)

Class Scalar (F : Type) : Type := {
  fadd : F -> F -> F;
  fsub : F -> F -> F;
  fmul : F -> F -> F;
  fdiv : F -> F -> F;
  fneg : F -> F;
  fsqrt : F -> F;                 (* sqrtf *)
  flt : F -> F -> bool;           (* a <  b *)
  fle : F -> F -> bool;           (* a <= b *)
  feq : F -> F -> bool;           (* a == b *)
  of_int : Z -> F;                (* conversion int -> float *)
  flit : Z -> Z -> F;             (* the literal written n/d in decimal: 0.15f is [flit 15 100] *)
  to_int : F -> Z;                (* the cast (int)v *)
  to_u8 : F -> Z;                 (* the cast (uint8_t)v *)
  FLT_MAX : F
}.

Class Trig (F : Type) : Type := {
  fcos : F -> F;
  fsin : F -> F;
  ftan : F -> F
}.

Declare Scope fl_scope.
Delimit Scope fl_scope with fl.
Infix "+" := fadd : fl_scope.
Infix "-" := fsub : fl_scope.
Infix "*" := fmul : fl_scope.
Infix "/" := fdiv : fl_scope.
Notation "- a" := (fneg a) : fl_scope.
Infix "<?" := flt : fl_scope.
Infix "<=?" := fle : fl_scope.
Infix "=?" := feq : fl_scope.

(** [m.[c][r]] reads entry (column c, row r) of a [float m[4][4]]. *)
Notation "m .[ c ][ r ]" := (m c%nat r%nat)
  (at level 1, left associativity, only parsing).

(** [std::max(a, b)] is [(a < b) ? b : a] and [std::min(a, b)] is
    [(b < a) ? b : a]; the initializer-list overloads keep the first element
    and replace it while a later one compares strictly beyond it. *)
Section StdMinMax.
Context {F : Type} {SF : Scalar F}.

Definition std_max (a b : F) : F := if (a <? b)%fl then b else a.
Definition std_min (a b : F) : F := if (b <? a)%fl then b else a.

Definition std_min3 (a b c : F) : F :=
  let m := a in
  let m := if (b <? m)%fl then b else m in
  if (c <? m)%fl then c else m.

Definition std_max3 (a b c : F) : F :=
  let m := a in
  let m := if (m <? b)%fl then b else m in
  if (m <? c)%fl then c else m.
End StdMinMax.

(** ** namespace math3d *)

Module math3d.
Local Open Scope nat_scope.

Section Kernel.
Context {F : Type} {SF : Scalar F}.

Record vec3d : Type := mkvec { x : F; y : F; z : F }.

Definition add (a r : vec3d) : vec3d :=
  mkvec (x a + x r)%fl (y a + y r)%fl (z a + z r)%fl.
Definition sub (a r : vec3d) : vec3d :=
  mkvec (x a - x r)%fl (y a - y r)%fl (z a - z r)%fl.
Definition smul (a : vec3d) (s : F) : vec3d :=
  mkvec (x a * s)%fl (y a * s)%fl (z a * s)%fl.
Definition sdiv (a : vec3d) (s : F) : vec3d :=
  mkvec (x a / s)%fl (y a / s)%fl (z a / s)%fl.

Definition length (a : vec3d) : F :=
  fsqrt (x a * x a + y a * y a + z a * z a)%fl.
Definition normalized (a : vec3d) : vec3d := sdiv a (length a).

Definition dot (a b : vec3d) : F :=
  (x a * x b + y a * y b + z a * z b)%fl.
Definition cross (a b : vec3d) : vec3d :=
  mkvec (y a * z b - z a * y b)%fl
        (z a * x b - x a * z b)%fl
        (x a * y b - y a * x b)%fl.

(** [float m[4][4]], addressed [m col row]. *)
Definition mat4 : Type := nat -> nat -> F.

(** [mat4 r{}]: every entry zero. *)
Definition zero : mat4 := fun _ _ => of_int 0.

(** [r.m[c][w] = v]. *)
Definition mset (r : mat4) (c w : nat) (v : F) : mat4 :=
  fun c' w' => if (Nat.eqb c' c && Nat.eqb w' w)%bool then v else r c' w'.

Definition identity : mat4 :=
  foldl (fun r i => mset r i i (flit 1 1)) zero (seq 0 4).

(** [operator*(const mat4&)]: three nested loops accumulating into a zeroed matrix. *)
Definition mul (m b : mat4) : mat4 :=
  foldl (fun r col =>
    foldl (fun r row =>
      foldl (fun r k => mset r col row (r.[col][row] + m.[k][row] * b.[col][k])%fl)
            r (seq 0 4))
      r (seq 0 4))
    zero (seq 0 4).

(** [operator*(const vec3d&)]: a point (w = 1), with the perspective divide. *)
Definition transform (m : mat4) (v : vec3d) : vec3d :=
  let px := (x v * m.[0][0] + y v * m.[1][0] + z v * m.[2][0] + m.[3][0])%fl in
  let py := (x v * m.[0][1] + y v * m.[1][1] + z v * m.[2][1] + m.[3][1])%fl in
  let pz := (x v * m.[0][2] + y v * m.[1][2] + z v * m.[2][2] + m.[3][2])%fl in
  let pw := (x v * m.[0][3] + y v * m.[1][3] + z v * m.[2][3] + m.[3][3])%fl in
  mkvec (px / pw)%fl (py / pw)%fl (pz / pw)%fl.

(** [transform_dir]: a direction (w = 0), no translation and no divide. *)
Definition transform_dir (m : mat4) (v : vec3d) : vec3d :=
  mkvec (x v * m.[0][0] + y v * m.[1][0] + z v * m.[2][0])%fl
        (x v * m.[0][1] + y v * m.[1][1] + z v * m.[2][1])%fl
        (x v * m.[0][2] + y v * m.[1][2] + z v * m.[2][2])%fl.

Definition translate (t : vec3d) : mat4 :=
  let r := identity in
  let r := mset r 3 0 (x t) in
  let r := mset r 3 1 (y t) in
  let r := mset r 3 2 (z t) in
  r.

Definition scale (s : vec3d) : mat4 :=
  let r := identity in
  let r := mset r 0 0 (x s) in
  let r := mset r 1 1 (y s) in
  let r := mset r 2 2 (z s) in
  r.

Definition perspective {T : Trig F} (fov aspect near far : F) : mat4 :=
  let r := zero in
  let f := (flit 1 1 / ftan (fov * flit 5 10))%fl in
  let r := mset r 0 0 (f / aspect)%fl in
  let r := mset r 1 1 f in
  let r := mset r 2 2 ((far + near) / (near - far))%fl in
  let r := mset r 2 3 (- flit 1 1)%fl in
  let r := mset r 3 2 ((flit 2 1 * far * near) / (near - far))%fl in
  r.

Definition rotateY {T : Trig F} (angle : F) : mat4 :=
  let r := identity in
  let c := fcos angle in
  let s := fsin angle in
  let r := mset r 0 0 c in
  let r := mset r 2 0 s in
  let r := mset r 0 2 (- s)%fl in
  let r := mset r 2 2 c in
  r.

Definition rotateX {T : Trig F} (angle : F) : mat4 :=
  let r := identity in
  let c := fcos angle in
  let s := fsin angle in
  let r := mset r 1 1 c in
  let r := mset r 2 1 s in
  let r := mset r 1 2 (- s)%fl in
  let r := mset r 2 2 c in
  r.

Definition rotateZ {T : Trig F} (angle : F) : mat4 :=
  let r := identity in
  let c := fcos angle in
  let s := fsin angle in
  let r := mset r 0 0 c in
  let r := mset r 1 0 s in
  let r := mset r 0 1 (- s)%fl in
  let r := mset r 1 1 c in
  r.

Definition look_at (eye target up : vec3d) : mat4 :=
  let f := normalized (sub target eye) in
  let r := normalized (cross f up) in
  let u := cross r f in
  let m := zero in
  let m := mset m 0 0 (x r) in
  let m := mset m 1 0 (y r) in
  let m := mset m 2 0 (z r) in
  let m := mset m 0 1 (x u) in
  let m := mset m 1 1 (y u) in
  let m := mset m 2 1 (z u) in
  let m := mset m 0 2 (- x f)%fl in
  let m := mset m 1 2 (- y f)%fl in
  let m := mset m 2 2 (- z f)%fl in
  let m := mset m 3 0 (- dot r eye)%fl in
  let m := mset m 3 1 (- dot u eye)%fl in
  let m := mset m 3 2 (dot f eye) in
  let m := mset m 3 3 (flit 1 1) in
  m.
End Kernel.
Arguments vec3d F : clear implicits.
Arguments mat4 F : clear implicits.
End math3d.

(** ** The framebuffer *)

Definition W : Z := 1280.
Definition H : Z := 720.

(** A C array read or written at an index: [None] is an access outside the
    array, which the C++ program must never perform. *)
Definition arr_get {A : Type} (a : list A) (i : Z) : option A :=
  if (i <? 0) then None else a !! Z.to_nat i.

Definition arr_set {A : Type} (a : list A) (i : Z) (v : A) : option (list A) :=
  if (i <? 0) || (Z.of_nat (length a) <=? i) then None
  else Some (<[Z.to_nat i := v]> a).

(** Statement-level loop [for (T i : l) body]. *)
Fixpoint for_each {A S : Type} (l : list A) (body : A -> S -> option S) (s : S)
  : option S :=
  match l with
  | [] => Some s
  | i :: l' => match body i s with
               | Some s' => for_each l' body s'
               | None => None
               end
  end.

(** [for (int i = lo; i <= hi; i++)]. *)
Definition range (lo hi : Z) : list Z := seqZ lo (hi - lo + 1).

(** Packed ARGB colors. *)
Definition chan (shift : Z) (color : Z) : Z := Z.land (Z.shiftr color shift) 0xff.
Definition pack (r g b : Z) : Z :=
  Z.lor (Z.lor (Z.lor 0xFF000000 (Z.shiftl r 16)) (Z.shiftl g 8)) b.

Section Renderer.
Context {F : Type} {SF : Scalar F}.

(** [static uint32_t fb[W * H]; static float db[W * H];] *)
Record buffers : Type := mkbuf { fb : list Z; db : list F }.

Definition fb_clear (color : Z) : buffers :=
  {| fb := replicate (Z.to_nat (W * H)) color;
     db := replicate (Z.to_nat (W * H)) FLT_MAX |}.

Definition fb_set (x y : Z) (depth : F) (color : Z) (s : buffers)
  : option buffers :=
  if (x <? 0) || (x >=? W) || (y <? 0) || (y >=? H) then Some s
  else
    let idx := y * W + x in
    match arr_get (db s) idx with
    | None => None
    | Some cur =>
        if (depth <? cur)%fl then
          match arr_set (db s) idx depth, arr_set (fb s) idx color with
          | Some db', Some fb' => Some {| fb := fb'; db := db' |}
          | _, _ => None
          end
        else Some s
    end.

(** *** The rasterizer *)

Record Vertex : Type := mkvertex {
  pos : math3d.vec3d F;  (* NDC after MVP *)
  depth : F;             (* commented "pre-divide z" in the source; [draw_cube] stores wz/ww *)
  color : Z
}.

(** Edge function: positive when p is to the left of (a -> b). *)
Definition edge (ax ay bx by_ px py : F) : F :=
  ((bx - ax) * (py - ay) - (by_ - ay) * (px - ax))%fl.

Definition to_screen (ndc : F) (dim : Z) : F :=
  ((ndc * flit 5 10 + flit 5 10) * of_int dim)%fl.

(** The three edge values of the pixel center of (x, y); [None] when the
    pixel fails the inside test ([continue]), else the values divided by
    the area. *)
Definition weights (sx0 sy0 sx1 sy1 sx2 sy2 area : F) (x y : Z)
  : option (F * F * F) :=
  let px := (of_int x + flit 5 10)%fl in
  let py := (of_int y + flit 5 10)%fl in
  let w0 := edge sx1 sy1 sx2 sy2 px py in
  let w1 := edge sx2 sy2 sx0 sy0 px py in
  let w2 := edge sx0 sy0 sx1 sy1 px py in
  if (w0 <? of_int 0)%fl || (w1 <? of_int 0)%fl || (w2 <? of_int 0)%fl
  then None
  else Some ((w0 / area)%fl, (w1 / area)%fl, (w2 / area)%fl).

(** Interpolated depth and color of a fragment. *)
Definition interpolate (v0 v1 v2 : Vertex) (w : F * F * F) : F * Z :=
  let '(w0, w1, w2) := w in
  let d := (w0 * depth v0 + w1 * depth v1 + w2 * depth v2)%fl in
  let ch sh := to_u8 (w0 * of_int (chan sh (color v0))
                      + w1 * of_int (chan sh (color v1))
                      + w2 * of_int (chan sh (color v2)))%fl in
  (d, pack (ch 16) (ch 8) (ch 0)).

(** The screen-space corners of a triangle. *)
Definition screen_x (v : Vertex) : F := to_screen (math3d.x (pos v)) W.
Definition screen_y (v : Vertex) : F := to_screen (- math3d.y (pos v))%fl H.

(** The four [float] bounds of the bounding box, before the casts. *)
Definition bbox_bounds (v0 v1 v2 : Vertex) : F * F * F * F :=
  let sx0 := screen_x v0 in let sy0 := screen_y v0 in
  let sx1 := screen_x v1 in let sy1 := screen_y v1 in
  let sx2 := screen_x v2 in let sy2 := screen_y v2 in
  (std_max (flit 0 1) (std_min3 sx0 sx1 sx2),
   std_min (of_int (W - 1)) (std_max3 sx0 sx1 sx2),
   std_max (flit 0 1) (std_min3 sy0 sy1 sy2),
   std_min (of_int (H - 1)) (std_max3 sy0 sy1 sy2)).

(** The bounding box [(minx, maxx, miny, maxy)]. *)
Definition bbox (v0 v1 v2 : Vertex) : Z * Z * Z * Z :=
  let '(lox, hix, loy, hiy) := bbox_bounds v0 v1 v2 in
  (to_int lox, to_int hix, to_int loy, to_int hiy).

(** The body of the two nested loops, for one pixel. *)
Definition draw_pixel (v0 v1 v2 : Vertex) (area : F) (x y : Z) (s : buffers)
  : option buffers :=
  match weights (screen_x v0) (screen_y v0) (screen_x v1) (screen_y v1)
                (screen_x v2) (screen_y v2) area x y with
  | None => Some s
  | Some w =>
      let '(d, c) := interpolate v0 v1 v2 w in
      fb_set x y d c s
  end.

Definition raster_loop (v0 v1 v2 : Vertex) (area : F) (box : Z * Z * Z * Z)
  (s : buffers) : option buffers :=
  let '(minx, maxx, miny, maxy) := box in
  for_each (range miny maxy) (fun y s =>
    for_each (range minx maxx) (fun x s => draw_pixel v0 v1 v2 area x y s) s) s.

Definition draw_triangle (v0 v1 v2 : Vertex) (s : buffers) : option buffers :=
  let sx0 := screen_x v0 in let sy0 := screen_y v0 in
  let sx1 := screen_x v1 in let sy1 := screen_y v1 in
  let sx2 := screen_x v2 in let sy2 := screen_y v2 in
  (* Backface cull *)
  if (edge sx0 sy0 sx1 sy1 sx2 sy2 <=? of_int 0)%fl then Some s
  else
    let box := bbox v0 v1 v2 in
    let area := edge sx0 sy0 sx1 sy1 sx2 sy2 in
    if (area =? of_int 0)%fl then Some s
    else raster_loop v0 v1 v2 area box s.

(** *** The scene *)

Definition vec (a b c : Z) : math3d.vec3d F :=
  math3d.mkvec (of_int a) (of_int b) (of_int c).

Definition cube_verts : list (math3d.vec3d F) :=
  [ vec (-1) (-1) (-1); vec 1 (-1) (-1); vec 1 1 (-1); vec (-1) 1 (-1);
    vec (-1) (-1) 1;    vec 1 (-1) 1;    vec 1 1 1;    vec (-1) 1 1 ].

Definition face_colors : list Z :=
  [ 0xFFE74C3C; 0xFF3498DB; 0xFF2ECC71; 0xFFE67E22; 0xFFECF0F1; 0xFF9B59B6 ].

Definition cube_quads : list (list nat) :=
  [ [0; 3; 2; 1]; [4; 5; 6; 7]; [0; 4; 7; 3];
    [1; 2; 6; 5]; [0; 1; 5; 4]; [3; 7; 6; 2] ]%nat.

(** [cube_verts[cube_quads[f][i]]]; the tables are static and every index
    the code uses is inside them. *)
Definition corner (f i : nat) : math3d.vec3d F :=
  nth (nth i (nth f cube_quads []) 0%nat) cube_verts (vec 0 0 0).

Definition face_normal (model : math3d.mat4 F) (f : nat) : math3d.vec3d F :=
  let face_verts := map (fun i => math3d.transform model (corner f i)) (seq 0 4) in
  let fv i := nth i face_verts (vec 0 0 0) in
  math3d.normalized
    (math3d.cross (math3d.sub (fv 1%nat) (fv 0%nat))
                  (math3d.sub (fv 2%nat) (fv 0%nat))).

Definition face_diffuse (model : math3d.mat4 F) (light_dir : math3d.vec3d F)
  (f : nat) : F :=
  std_max (flit 15 100) (math3d.dot (face_normal model f) light_dir).

Definition face_shaded (model : math3d.mat4 F) (light_dir : math3d.vec3d F)
  (f : nat) : Z :=
  let diffuse := face_diffuse model light_dir f in
  let fc := nth f face_colors 0 in
  let r := to_u8 (of_int (chan 16 fc) * diffuse)%fl in
  let g := to_u8 (of_int (chan 8 fc) * diffuse)%fl in
  let b := to_u8 (of_int (chan 0 fc) * diffuse)%fl in
  pack r g b.

(** One projected corner: the MVP product written out to keep w. *)
Definition project (mvp : math3d.mat4 F) (v : math3d.vec3d F) (shaded : Z)
  : Vertex :=
  let '(math3d.mkvec vx vy vz) := v in
  let wx := (vx * mvp.[0][0] + vy * mvp.[1][0] + vz * mvp.[2][0] + mvp.[3][0])%fl in
  let wy := (vx * mvp.[0][1] + vy * mvp.[1][1] + vz * mvp.[2][1] + mvp.[3][1])%fl in
  let wz := (vx * mvp.[0][2] + vy * mvp.[1][2] + vz * mvp.[2][2] + mvp.[3][2])%fl in
  let ww := (vx * mvp.[0][3] + vy * mvp.[1][3] + vz * mvp.[2][3] + mvp.[3][3])%fl in
  {| pos := math3d.mkvec (wx / ww)%fl (wy / ww)%fl (wz / ww)%fl;
     depth := (wz / ww)%fl;
     color := shaded |}.

(** [draw_cube], over the rasterizer it calls: [draw_cube] itself is the
    instance at [draw_triangle]. *)
Section Driver.
Context {S : Type} (raster : Vertex -> Vertex -> Vertex -> S -> option S).

Definition draw_face_with (mvp model : math3d.mat4 F)
  (light_dir : math3d.vec3d F) (f : nat) (s : S) : option S :=
  let shaded := face_shaded model light_dir f in
  let pv := map (fun i => project mvp (corner f i) shaded) (seq 0 4) in
  let p i := nth i pv (project mvp (vec 0 0 0) 0) in
  match raster (p 0%nat) (p 1%nat) (p 2%nat) s with
  | Some s' => raster (p 0%nat) (p 2%nat) (p 3%nat) s'
  | None => None
  end.

Definition draw_cube_with (mvp model : math3d.mat4 F)
  (light_dir : math3d.vec3d F) (s : S) : option S :=
  for_each (seq 0 6) (draw_face_with mvp model light_dir) s.
End Driver.

Definition draw_cube (mvp model : math3d.mat4 F) (light_dir : math3d.vec3d F)
  (s : buffers) : option buffers :=
  draw_cube_with draw_triangle mvp model light_dir s.
End Renderer.
Arguments buffers F : clear implicits.
Arguments Vertex F : clear implicits.

(** ** Scalars, one: the real numbers

    Exact arithmetic: what the code computes when no operation rounds.
    Division is Rocq's total division, so a theorem that relies on a quotient
    states that its divisor is not zero. *)

Module RealScalar.
Definition ltb (a b : R) : bool := if Rlt_dec a b then true else false.
Definition leb (a b : R) : bool := if Rle_dec a b then true else false.
Definition eqb (a b : R) : bool := if Req_dec_T a b then true else false.

(** Truncation toward zero, as a conversion to an integer type does. *)
Definition trunc (v : R) : Z :=
  if Rle_dec 0 v then Int_part v else - Int_part (- v).

#[export] Instance real_scalar : Scalar R := {|
  fadd := Rplus; fsub := Rminus; fmul := Rmult; fdiv := Rdiv; fneg := Ropp;
  fsqrt := sqrt;
  flt := ltb; fle := leb; feq := eqb;
  of_int := IZR;
  flit := fun n d => (IZR n / IZR d)%R;
  to_int := trunc;
  to_u8 := fun v => trunc v mod 256;
  FLT_MAX := IZR 340282346638528859811704183484516925440
|}.

#[export] Instance real_trig : Trig R := {| fcos := cos; fsin := sin; ftan := tan |}.
End RealScalar.

(** ** Scalars, two: IEEE-754 binary32

    [float] as the Standard Library's [spec_float] at precision 24 and maximal
    exponent 128, with round-to-nearest-even operations.  A cast to an integer
    type of a value that does not fit is undefined in C++; this instance gives
    it the value the x86 conversion instruction yields, the most negative
    [int]. *)

Module Binary32.
Definition prec : Z := 24.
Definition emax : Z := 128.

Definition of_Z (n : Z) : spec_float := binary_normalize prec emax n 0 false.

Definition integral (v : spec_float) : option Z :=
  match v with
  | S754_zero _ => Some 0
  | S754_finite s m e => Some (cond_Zopp s (Z.shiftl (Zpos m) e))
  | S754_infinity _ | S754_nan => None
  end.

Definition INT_MIN : Z := - 2 ^ 31.

Definition cast_int (v : spec_float) : Z :=
  match integral v with
  | Some n => if (INT_MIN <=? n) && (n <? 2 ^ 31) then n else INT_MIN
  | None => INT_MIN
  end.

#[export] Instance binary32_scalar : Scalar spec_float := {|
  fadd := SFadd prec emax; fsub := SFsub prec emax;
  fmul := SFmul prec emax; fdiv := SFdiv prec emax;
  fneg := SFopp;
  fsqrt := SFsqrt prec emax;
  flt := SFltb; fle := SFleb; feq := SFeqb;
  of_int := of_Z;
  flit := fun n d => SFdiv prec emax (of_Z n) (of_Z d);
  to_int := cast_int;
  to_u8 := fun v => cast_int v mod 256;
  FLT_MAX := S754_finite false (2 ^ 24 - 1) 104
|}.
End Binary32.

(** ** Sample inputs

    Concrete vertices and colors at which the properties are instantiated. *)

Module Samples.
Import Binary32.

Definition clear_color : Z := 0xFF1A1A2E.
Definition red : Z := 0xFFFF0000.
Definition blue : Z := 0xFF0000FF.

(** A binary32 vertex at NDC (xn/xd, yn/yd) with depth dn/dd. *)
Definition ndc_vertex (xn xd yn yd dn dd : Z) (c : Z) : Vertex spec_float :=
  mkvertex (math3d.mkvec (flit xn xd) (flit yn yd) (flit 0 1)) (flit dn dd) c.

(** The corners of a small triangle at the top-left of the screen: screen
    positions (0, 0), (5, 0) and (0, 5.625), counter-clockwise in that order,
    all at depth dn/dd and of color c. *)
Definition corner_a (dn dd c : Z) : Vertex spec_float := ndc_vertex (-1) 1 1 1 dn dd c.
Definition corner_b (dn dd c : Z) : Vertex spec_float := ndc_vertex (-127) 128 1 1 dn dd c.
Definition corner_c (dn dd c : Z) : Vertex spec_float := ndc_vertex (-1) 1 63 64 dn dd c.

(** A vertex whose coordinates are NaN and an infinity. *)
Definition nan_vertex : Vertex spec_float :=
  mkvertex (math3d.mkvec S754_nan (S754_infinity false) S754_nan) S754_nan red.

(** Real vertices at NDC (x, y) with depth d. *)
Definition real_vertex (x y d : R) (c : Z) : Vertex R :=
  mkvertex (math3d.mkvec x y 0%R) d c.
End Samples.

(** ** Laws of the scalar comparisons and casts

    What the proofs below use of [<] and of the cast to [int].  IEEE
    comparisons satisfy [OrderLaws] with NaN incomparable to everything. *)

Class OrderLaws (F : Type) {SF : Scalar F} : Prop := {
  flt_asym : forall a b : F, (a <? b)%fl = true -> (b <? a)%fl = false;
  flt_trans : forall a b c : F,
    (a <? b)%fl = true -> (b <? c)%fl = true -> (a <? c)%fl = true
}.

(** [int_fits v]: the value lies in the range of [int], where the cast
    [(int)v] is defined. *)
Definition int_fits {F : Type} {SF : Scalar F} (v : F) : bool :=
  (of_int (- 2 ^ 31) <=? v)%fl && (v <? of_int (2 ^ 31))%fl.

Class CastLaws (F : Type) {SF : Scalar F} : Prop := {
  to_int_zero : to_int (flit 0 1 : F) = 0;
  to_int_of_int : forall n : Z, 0 <= n <= 2 ^ 24 -> to_int (of_int n : F) = n;
  to_int_pos : forall v : F,
    (flit 0 1 <? v)%fl = true -> int_fits v = true -> 0 <= to_int v;
  to_int_below : forall (v : F) (n : Z), 0 <= n <= 2 ^ 24 ->
    (v <? of_int n)%fl = true -> int_fits v = true -> to_int v <= n
}.

(** A frame is a clear followed by fragments handed to [fb_set] in order. *)
Record fragment (F : Type) : Type := mkfrag {
  frag_x : Z; frag_y : Z; frag_depth : F; frag_color : Z
}.
Arguments mkfrag {F} _ _ _ _.
Arguments frag_x {F} _.
Arguments frag_y {F} _.
Arguments frag_depth {F} _.
Arguments frag_color {F} _.

Definition run_fragments {F : Type} {SF : Scalar F} (frs : list (fragment F))
  (s : buffers F) : option (buffers F) :=
  for_each frs
    (fun fr s => fb_set (frag_x fr) (frag_y fr) (frag_depth fr) (frag_color fr) s) s.

(** Both arrays have their declared size. *)
Definition sized {F : Type} (s : buffers F) : Prop :=
  length (fb s) = Z.to_nat (W * H) /\ length (db s) = Z.to_nat (W * H).

(** The index of pixel (x, y). *)
Definition pixel_index (x y : Z) : nat := Z.to_nat (y * W + x).

(** ** Frames as fragment sequences, and what [draw_cube] submits

    Definitions the properties are stated with: the fragments a triangle
    hands to [fb_set], the condition the depth buffer maintains over a frame,
    and the triangles of a cube face. *)

Section Fragments.
Context {F : Type} {SF : Scalar F}.
Implicit Types (s : buffers F) (v : Vertex F).

(** The fragment [draw_pixel] hands to [fb_set], if any. *)
Definition pixel_fragments v0 v1 v2 (area : F) (x y : Z) : list (fragment F) :=
  match weights (screen_x v0) (screen_y v0) (screen_x v1) (screen_y v1)
                (screen_x v2) (screen_y v2) area x y with
  | None => []
  | Some w => let '(d, c) := interpolate v0 v1 v2 w in [mkfrag x y d c]
  end.

(** The fragments of a triangle, in the order the loops produce them. *)
Definition triangle_fragments v0 v1 v2 : list (fragment F) :=
  let area := edge (screen_x v0) (screen_y v0) (screen_x v1) (screen_y v1)
                   (screen_x v2) (screen_y v2) in
  if (area <=? of_int 0)%fl then []
  else if (area =? of_int 0)%fl then []
  else
    let '(minx, maxx, miny, maxy) := bbox v0 v1 v2 in
    flat_map (fun y => flat_map (fun x => pixel_fragments v0 v1 v2 area x y)
                                (range minx maxx))
             (range miny maxy).

(** After the fragments [seen], every pixel holds a depth that none of the
    fragments sent to it beats, together with the color that came with that
    depth (or the cleared values when no fragment passed the test). *)
Definition nearest_kept (bg : Z) (seen : list (fragment F)) (s : buffers F) : Prop :=
  sized s /\
  forall x y, 0 <= x < W -> 0 <= y < H ->
    exists d c,
      db s !! pixel_index x y = Some d /\
      fb s !! pixel_index x y = Some c /\
      (forall fr, fr ∈ seen -> frag_x fr = x -> frag_y fr = y ->
         (frag_depth fr <? d)%fl = false) /\
      ((d = FLT_MAX /\ c = bg) \/ mkfrag x y d c ∈ seen).

Definition triangle : Type := Vertex F * Vertex F * Vertex F.

(** A rasterizer that only records the triangles it is given. *)
Definition record_triangle (v0 v1 v2 : Vertex F) (log : list triangle)
  : option (list triangle) := Some (log ++ [(v0, v1, v2)]).

(** The two triangles of face [f]: corners (0,1,2) and (0,2,3). *)
Definition face_triangles (mvp model : math3d.mat4 F) (light_dir : math3d.vec3d F)
  (f : nat) : list triangle :=
  let pv i := project mvp (corner f i) (face_shaded model light_dir f) in
  [ (pv 0%nat, pv 1%nat, pv 2%nat); (pv 0%nat, pv 2%nat, pv 3%nat) ].
End Fragments.

(** * Properties *)

(** ** Arrays and loops *)

Lemma arr_get_in_range {A : Type} (a : list A) (i : Z) :
  0 <= i < Z.of_nat (length a) ->
  exists v, arr_get a i = Some v /\ a !! Z.to_nat i = Some v.
Proof.
  intros Hi. unfold arr_get.
  destruct (Z.ltb_spec i 0) as [Hneg | _]; [lia |].
  destruct (lookup_lt_is_Some_2 a (Z.to_nat i)) as [v Hv]; [lia |].
  exists v. split; assumption.
Qed.

Lemma arr_get_Some_range {A : Type} (a : list A) (i : Z) (v : A) :
  arr_get a i = Some v -> 0 <= i < Z.of_nat (length a).
Proof.
  unfold arr_get. destruct (Z.ltb_spec i 0) as [Hneg | Hpos]; [discriminate |].
  intros Hv. apply lookup_lt_Some in Hv. lia.
Qed.

Lemma arr_set_in_range {A : Type} (a : list A) (i : Z) (v : A) :
  0 <= i < Z.of_nat (length a) ->
  arr_set a i v = Some (<[Z.to_nat i := v]> a).
Proof.
  intros Hi. unfold arr_set.
  destruct (Z.ltb_spec i 0); [lia |].
  destruct (Z.leb_spec (Z.of_nat (length a)) i); [lia |].
  reflexivity.
Qed.

Lemma for_each_invariant {A S : Type} (P : S -> Prop) (l : list A)
  (body : A -> S -> option S) :
  (forall i s, i ∈ l -> P s -> exists s', body i s = Some s' /\ P s') ->
  forall s, P s -> exists s', for_each l body s = Some s' /\ P s'.
Proof.
  induction l as [| i l IH]; intros Hbody s Hs; simpl.
  - exists s. split; [reflexivity | assumption].
  - destruct (Hbody i s) as (s1 & -> & Hs1); [left | assumption |].
    apply IH; [| assumption].
    intros j t Hj. apply Hbody. right. assumption.
Qed.

Lemma range_spec (lo hi x : Z) : x ∈ range lo hi <-> lo <= x <= hi.
Proof. unfold range. rewrite elem_of_seqZ. lia. Qed.

Lemma pixel_index_inj (x y x' y' : Z) :
  0 <= x < W -> 0 <= y < H -> 0 <= x' < W -> 0 <= y' < H ->
  pixel_index x y = pixel_index x' y' -> x = x' /\ y = y'.
Proof. unfold pixel_index, W, H. lia. Qed.

Lemma pixel_index_lt (x y : Z) :
  0 <= x < W -> 0 <= y < H ->
  0 <= y * W + x < W * H /\ (pixel_index x y < Z.to_nat (W * H))%nat.
Proof. unfold pixel_index, W, H. lia. Qed.

(** ** [fb_set] *)

Section FbSet.
Context {F : Type} {SF : Scalar F}.
Implicit Types (s : buffers F) (d : F) (c : Z).

Lemma fb_set_outside x y d c s :
  x < 0 \/ x >= W \/ y < 0 \/ y >= H -> fb_set x y d c s = Some s.
Proof.
  intros Hout. unfold fb_set.
  destruct (Z.ltb_spec x 0), (Z.geb_spec x W), (Z.ltb_spec y 0),
    (Z.geb_spec y H); cbn [orb]; try reflexivity; lia.
Qed.

(** Inside the screen, on arrays of the declared size, [fb_set] is the
    depth test against the stored depth followed by one write per array. *)
Lemma fb_set_inside x y d c s :
  sized s -> 0 <= x < W -> 0 <= y < H ->
  exists cur, db s !! pixel_index x y = Some cur /\
    fb_set x y d c s =
      Some (if (d <? cur)%fl
            then {| fb := <[pixel_index x y := c]> (fb s);
                    db := <[pixel_index x y := d]> (db s) |}
            else s).
Proof.
  intros [Hfb Hdb] Hx Hy.
  destruct (pixel_index_lt x y Hx Hy) as [Hidx _].
  destruct (arr_get_in_range (db s) (y * W + x)) as (cur & Hget & Hcur); [lia |].
  exists cur. split; [exact Hcur |].
  unfold fb_set.
  destruct (Z.ltb_spec x 0), (Z.geb_spec x W), (Z.ltb_spec y 0),
    (Z.geb_spec y H); try lia. cbn [orb].
  rewrite Hget. destruct (d <? cur)%fl; [| reflexivity].
  rewrite !arr_set_in_range by lia. reflexivity.
Qed.

Lemma fb_set_sized x y d c s :
  sized s -> exists s', fb_set x y d c s = Some s' /\ sized s'.
Proof.
  intros Hs.
  destruct (Z_lt_le_dec x 0); [exists s; split; [apply fb_set_outside; lia | done] |].
  destruct (Z_lt_le_dec x W); [| exists s; split; [apply fb_set_outside; lia | done]].
  destruct (Z_lt_le_dec y 0); [exists s; split; [apply fb_set_outside; lia | done] |].
  destruct (Z_lt_le_dec y H); [| exists s; split; [apply fb_set_outside; lia | done]].
  destruct (fb_set_inside x y d c s Hs) as (cur & _ & ->); [lia | lia |].
  eexists. split; [reflexivity |].
  destruct (d <? cur)%fl; [| assumption].
  destruct Hs as [Hfb Hdb]. split; cbn [fb db]; rewrite length_insert; assumption.
Qed.

Lemma fb_clear_sized c : sized (fb_clear c).
Proof. split; cbn [fb_clear fb db]; apply length_replicate. Qed.

Lemma fb_clear_lookup c (i : nat) :
  (i < Z.to_nat (W * H))%nat ->
  fb (fb_clear c) !! i = Some c /\ db (fb_clear c) !! i = Some FLT_MAX.
Proof.
  intros Hi. split; cbn [fb_clear fb db]; apply lookup_replicate_2; assumption.
Qed.
End FbSet.

(** ** The depth buffer keeps the nearest fragment *)

Section Frame.
Context {F : Type} {SF : Scalar F} {OL : OrderLaws F}.
Implicit Types (s : buffers F) (fr : fragment F).

Lemma flt_irrefl (a : F) : (a <? a)%fl = false.
Proof.
  destruct (a <? a)%fl eqn:E; [| reflexivity].
  rewrite (flt_asym a a E) in E. discriminate.
Qed.

Lemma flt_not_below (a b c : F) :
  (a <? c)%fl = false -> (b <? c)%fl = true -> (a <? b)%fl = false.
Proof.
  intros Hac Hbc. destruct (a <? b)%fl eqn:E; [| reflexivity].
  rewrite (flt_trans a b c E Hbc) in Hac. discriminate.
Qed.

Lemma std_max_not_below (a m : F) : (std_max a m <? a)%fl = false.
Proof.
  unfold std_max. destruct (a <? m)%fl eqn:E.
  - apply flt_asym. exact E.
  - apply flt_irrefl.
Qed.

Lemma std_min_not_above (a m : F) : (a <? std_min a m)%fl = false.
Proof.
  unfold std_min. destruct (m <? a)%fl eqn:E.
  - apply flt_asym. exact E.
  - apply flt_irrefl.
Qed.

Lemma nearest_kept_clear bg : nearest_kept bg [] (fb_clear bg).
Proof.
  split; [apply fb_clear_sized |].
  intros x y Hx Hy. exists FLT_MAX, bg.
  destruct (pixel_index_lt x y Hx Hy) as [_ Hlt].
  destruct (fb_clear_lookup bg (pixel_index x y) Hlt) as [Hfb Hdb].
  repeat split; try assumption.
  - intros fr Hin. inversion Hin.
  - left. split; reflexivity.
Qed.

Lemma nearest_kept_step bg seen s fr :
  nearest_kept bg seen s ->
  exists s',
    fb_set (frag_x fr) (frag_y fr) (frag_depth fr) (frag_color fr) s = Some s' /\
    nearest_kept bg (seen ++ [fr]) s'.
Proof.
  intros [Hsz Hinv]. destruct fr as [fx fy fd fc]. cbn [frag_x frag_y frag_depth frag_color].
  assert (Hkeep : forall x y, (x, y) <> (fx, fy) -> 0 <= x < W -> 0 <= y < H ->
            forall d c,
              db s !! pixel_index x y = Some d ->
              fb s !! pixel_index x y = Some c ->
              (forall fr, fr ∈ seen -> frag_x fr = x -> frag_y fr = y ->
                 (frag_depth fr <? d)%fl = false) ->
              ((d = FLT_MAX /\ c = bg) \/ mkfrag x y d c ∈ seen) ->
              (forall fr, fr ∈ seen ++ [mkfrag fx fy fd fc] ->
                 frag_x fr = x -> frag_y fr = y ->
                 (frag_depth fr <? d)%fl = false) /\
              ((d = FLT_MAX /\ c = bg) \/
               mkfrag x y d c ∈ seen ++ [mkfrag fx fy fd fc])).
  { intros x y Hne Hx Hy d c _ _ Hmin Hsrc. split.
    - intros fr Hin Hfx Hfy. apply elem_of_app in Hin as [Hin | Hin].
      + apply Hmin; assumption.
      + apply list_elem_of_singleton in Hin. subst fr. simpl in Hfx, Hfy.
        congruence.
    - destruct Hsrc as [Hclr | Hin]; [left; exact Hclr |].
      right. apply elem_of_app. left. exact Hin. }
  destruct (decide (0 <= fx < W /\ 0 <= fy < H)) as [[Hfx Hfy] | Hout].
  - destruct (fb_set_inside fx fy fd fc s Hsz Hfx Hfy) as (cur & Hcur & ->).
    eexists. split; [reflexivity |].
    destruct (pixel_index_lt fx fy Hfx Hfy) as [_ Hlt].
    destruct (Hinv fx fy Hfx Hfy) as (d0 & c0 & Hd0 & Hc0 & Hmin0 & Hsrc0).
    assert (d0 = cur) by congruence. subst d0.
    destruct (fd <? cur)%fl eqn:Htest.
    + split.
      { destruct Hsz as [Hfb Hdb]. split; cbn [fb db]; rewrite length_insert; assumption. }
      intros x y Hx Hy. cbn [fb db].
      destruct (decide ((x, y) = (fx, fy))) as [Heq | Hne].
      * injection Heq as -> ->. exists fd, fc.
        rewrite !list_lookup_insert_eq by (destruct Hsz; lia).
        repeat split.
        -- intros fr Hin Hx' Hy'. apply elem_of_app in Hin as [Hin | Hin].
           ++ apply (flt_not_below _ fd cur); [apply Hmin0 |]; assumption.
           ++ apply list_elem_of_singleton in Hin. subst fr. apply flt_irrefl.
        -- right. apply elem_of_app. right. apply list_elem_of_singleton. reflexivity.
      * assert (Hidx : pixel_index fx fy <> pixel_index x y).
        { intros Hi. apply pixel_index_inj in Hi as [? ?]; try assumption. congruence. }
        destruct (Hinv x y Hx Hy) as (d & c & Hd & Hc & Hmin & Hsrc).
        exists d, c. rewrite !list_lookup_insert_ne by exact Hidx.
        destruct (Hkeep x y Hne Hx Hy d c Hd Hc Hmin Hsrc) as [? ?].
        repeat split; assumption.
    + split; [exact Hsz |].
      intros x y Hx Hy.
      destruct (Hinv x y Hx Hy) as (d & c & Hd & Hc & Hmin & Hsrc).
      exists d, c.
      destruct (decide ((x, y) = (fx, fy))) as [Heq | Hne].
      * injection Heq as -> ->. assert (d = cur) by congruence. subst d.
        repeat split; try assumption.
        -- intros fr Hin Hx' Hy'. apply elem_of_app in Hin as [Hin | Hin].
           ++ apply Hmin; assumption.
           ++ apply list_elem_of_singleton in Hin. subst fr. exact Htest.
        -- destruct Hsrc as [Hclr | Hin]; [left; exact Hclr |].
           right. apply elem_of_app. left. exact Hin.
      * destruct (Hkeep x y Hne Hx Hy d c Hd Hc Hmin Hsrc) as [? ?].
        repeat split; assumption.
  - rewrite fb_set_outside by lia.
    eexists. split; [reflexivity |]. split; [exact Hsz |].
    intros x y Hx Hy.
    destruct (Hinv x y Hx Hy) as (d & c & Hd & Hc & Hmin & Hsrc).
    exists d, c.
    assert (Hne : (x, y) <> (fx, fy)) by (intros [= -> ->]; apply Hout; lia).
    destruct (Hkeep x y Hne Hx Hy d c Hd Hc Hmin Hsrc) as [? ?].
    repeat split; assumption.
Qed.

Lemma nearest_kept_run bg frs : forall seen s,
  nearest_kept bg seen s ->
  exists s', run_fragments frs s = Some s' /\ nearest_kept bg (seen ++ frs) s'.
Proof.
  induction frs as [| fr frs IH]; intros seen s Hinv.
  - exists s. rewrite app_nil_r. split; [reflexivity | exact Hinv].
  - destruct (nearest_kept_step bg seen s fr Hinv) as (s1 & Hstep & Hinv1).
    destruct (IH (seen ++ [fr]) s1 Hinv1) as (s' & Hrun & Hinv').
    exists s'. split.
    + unfold run_fragments in *. cbn [for_each]. rewrite Hstep. exact Hrun.
    + rewrite <- app_assoc in Hinv'. exact Hinv'.
Qed.
End Frame.

(** ** The two scalar instances satisfy the laws *)

Module RealLaws.
Import RealScalar.
Local Open Scope R_scope.

Lemma ltb_true (a b : R) : ltb a b = true <-> a < b.
Proof. unfold ltb. destruct (Rlt_dec a b); split; (discriminate || tauto). Qed.

Lemma ltb_false (a b : R) : ltb a b = false <-> b <= a.
Proof.
  unfold ltb. destruct (Rlt_dec a b); split; intros; (discriminate || lra || reflexivity).
Qed.

Lemma leb_true (a b : R) : leb a b = true <-> a <= b.
Proof. unfold leb. destruct (Rle_dec a b); split; (discriminate || tauto). Qed.

Lemma leb_false (a b : R) : leb a b = false <-> b < a.
Proof.
  unfold leb. destruct (Rle_dec a b); split; intros; (discriminate || lra || reflexivity).
Qed.

Lemma eqb_true (a b : R) : eqb a b = true <-> a = b.
Proof. unfold eqb. destruct (Req_dec_T a b); split; (discriminate || tauto). Qed.

Lemma eqb_false (a b : R) : eqb a b = false <-> a <> b.
Proof.
  unfold eqb. destruct (Req_dec_T a b); split; intros; (discriminate || tauto || reflexivity).
Qed.

#[export] Instance real_order_laws : OrderLaws R.
Proof.
  split; cbn [flt real_scalar].
  - intros a b Hab. apply ltb_true in Hab. apply ltb_false. lra.
  - intros a b c Hab Hbc. apply ltb_true in Hab, Hbc. apply ltb_true. lra.
Qed.

(** The integer part of a real between two consecutive integers. *)
Lemma Int_part_between (v : R) (n : Z) :
  IZR n <= v < IZR n + 1 -> Int_part v = n.
Proof.
  intros [Hlo Hhi].
  destruct (base_Int_part v) as [Hle Hgt].
  assert (H1 : (Int_part v < n + 1)%Z).
  { apply lt_IZR. rewrite plus_IZR. lra. }
  assert (H2 : (n < Int_part v + 1)%Z).
  { apply lt_IZR. rewrite plus_IZR. lra. }
  lia.
Qed.

Lemma trunc_IZR (n : Z) : trunc (IZR n) = n.
Proof.
  unfold trunc. destruct (Rle_dec 0 (IZR n)).
  - apply Int_part_between. lra.
  - rewrite <- opp_IZR, (Int_part_between _ (- n)); [lia |]. lra.
Qed.

Lemma trunc_nonneg (v : R) : 0 <= v -> (0 <= trunc v)%Z.
Proof.
  intros Hv. unfold trunc. destruct (Rle_dec 0 v); [| contradiction].
  destruct (base_Int_part v) as [_ Hgt].
  assert (H1 : (-1 < Int_part v)%Z) by (apply lt_IZR; lra). lia.
Qed.

Lemma trunc_le (v : R) (n : Z) : (0 <= n)%Z -> v < IZR n -> (trunc v <= n)%Z.
Proof.
  intros Hn Hv. unfold trunc. destruct (Rle_dec 0 v) as [Hpos | Hneg].
  - destruct (base_Int_part v) as [Hle _].
    apply le_IZR. lra.
  - destruct (base_Int_part (- v)) as [_ Hgt].
    assert (H1 : (-1 < Int_part (- v))%Z) by (apply lt_IZR; lra). lia.
Qed.

#[export] Instance real_cast_laws : CastLaws R.
Proof.
  split; cbn [flt fle to_int of_int flit real_scalar].
  - replace (0 / 1) with (IZR 0) by lra. apply trunc_IZR.
  - intros n _. apply trunc_IZR.
  - intros v Hv _. apply ltb_true in Hv. apply trunc_nonneg. lra.
  - intros v n Hn Hv _. apply ltb_true in Hv. apply trunc_le; [lia | exact Hv].
Qed.
Lemma int_fits_real (v : R) :
  int_fits v = true <-> -2147483648 <= v < 2147483648.
Proof.
  unfold int_fits. cbn [fle flt of_int real_scalar].
  change (- 2 ^ 31)%Z with (-2147483648)%Z. change (2 ^ 31)%Z with 2147483648%Z.
  rewrite Bool.andb_true_iff, leb_true, ltb_true. reflexivity.
Qed.
End RealLaws.

Module Binary32Laws.
Import Binary32.

(** On finite values [SFltb] is the lexicographic order of sign, exponent
    and mantissa. *)
Lemma ltb_finite s1 m1 e1 s2 m2 e2 :
  SFltb (S754_finite s1 m1 e1) (S754_finite s2 m2 e2) = true <->
  match s1, s2 with
  | true, false => True
  | false, true => False
  | false, false => e1 < e2 \/ (e1 = e2 /\ (m1 < m2)%positive)
  | true, true => e2 < e1 \/ (e1 = e2 /\ (m2 < m1)%positive)
  end.
Proof.
  unfold SFltb, SFcompare.
  change (Pos.compare_cont Eq m1 m2) with (Pos.compare m1 m2).
  destruct s1, s2; try (split; (discriminate || tauto || reflexivity));
    destruct (Z.compare_spec e1 e2); destruct (Pos.compare_spec m1 m2);
    cbn; split; intros; try discriminate; try reflexivity; lia.
Qed.

#[export] Instance binary32_order_laws : OrderLaws spec_float.
Proof.
  split; cbn [flt binary32_scalar].
  - intros a b Hab. destruct (SFltb b a) eqn:Hba; [| reflexivity]. exfalso.
    destruct a as [sa | sa | | sa ma ea], b as [sb | sb | | sb mb eb];
      try rewrite ltb_finite in Hab, Hba;
      try destruct sa; try destruct sb; cbn in Hab, Hba;
      try discriminate; lia.
  - intros a b c Hab Hbc.
    destruct a as [sa | sa | | sa ma ea], b as [sb | sb | | sb mb eb],
        c as [sc | sc | | sc mc ec];
      try rewrite ltb_finite in Hab; try rewrite ltb_finite in Hbc;
      try rewrite ltb_finite;
      try destruct sa; try destruct sb; try destruct sc;
      cbn in Hab, Hbc |- *; try discriminate; try reflexivity; lia.
Qed.
End Binary32Laws.

(** ** [draw_triangle] as a sequence of [fb_set] calls *)

Lemma for_each_app {A S : Type} (l1 l2 : list A) (body : A -> S -> option S) (s : S) :
  for_each (l1 ++ l2) body s =
  match for_each l1 body s with
  | Some s' => for_each l2 body s'
  | None => None
  end.
Proof.
  revert s. induction l1 as [| i l1 IH]; intros s; cbn [for_each app].
  - reflexivity.
  - destruct (body i s) as [s' |]; [apply IH | reflexivity].
Qed.

Lemma for_each_flat {A B S : Type} (l : list A) (g : A -> list B)
  (inner : B -> S -> option S) (s : S) :
  for_each l (fun i s => for_each (g i) inner s) s =
  for_each (flat_map g l) inner s.
Proof.
  revert s. induction l as [| i l IH]; intros s; cbn [for_each flat_map].
  - reflexivity.
  - rewrite for_each_app. destruct (for_each (g i) inner s); [apply IH | reflexivity].
Qed.

Lemma for_each_ext {A S : Type} (l : list A) (f g : A -> S -> option S) (s : S) :
  (forall i t, f i t = g i t) -> for_each l f s = for_each l g s.
Proof.
  intros Hfg. revert s. induction l as [| i l IH]; intros s; cbn [for_each].
  - reflexivity.
  - rewrite Hfg. destruct (g i s); [apply IH | reflexivity].
Qed.

Section FragmentFacts.
Context {F : Type} {SF : Scalar F}.
Implicit Types (s : buffers F) (v : Vertex F).

Lemma draw_pixel_fragments v0 v1 v2 area x y s :
  draw_pixel v0 v1 v2 area x y s =
  run_fragments (pixel_fragments v0 v1 v2 area x y) s.
Proof.
  unfold draw_pixel, pixel_fragments, run_fragments.
  destruct (weights _ _ _ _ _ _ _ _ _) as [w |]; [| reflexivity].
  destruct (interpolate v0 v1 v2 w) as [d c].
  cbn [for_each frag_x frag_y frag_depth frag_color].
  destruct (fb_set x y d c s); reflexivity.
Qed.

Lemma draw_triangle_fragments v0 v1 v2 s :
  draw_triangle v0 v1 v2 s = run_fragments (triangle_fragments v0 v1 v2) s.
Proof.
  unfold draw_triangle, triangle_fragments.
  destruct (_ <=? _)%fl; [reflexivity |].
  destruct (_ =? _)%fl; [reflexivity |].
  unfold raster_loop. destruct (bbox v0 v1 v2) as [[[minx maxx] miny] maxy].
  unfold run_fragments. rewrite <- for_each_flat.
  apply for_each_ext. intros y t.
  rewrite <- for_each_flat.
  apply for_each_ext. intros x u.
  apply draw_pixel_fragments.
Qed.

Lemma run_fragments_sized (frs : list (fragment F)) s :
  sized s -> exists s', run_fragments frs s = Some s' /\ sized s'.
Proof.
  intros Hs. unfold run_fragments.
  apply (for_each_invariant sized); [| exact Hs].
  intros fr t _ Ht. apply fb_set_sized. exact Ht.
Qed.

Lemma draw_triangle_sized v0 v1 v2 s :
  sized s -> exists s', draw_triangle v0 v1 v2 s = Some s' /\ sized s'.
Proof. rewrite draw_triangle_fragments. apply run_fragments_sized. Qed.
End FragmentFacts.

(** ** The bounding box *)

Section BoundingBox.
Context {F : Type} {SF : Scalar F} {CL : CastLaws F}.

Lemma std_min3_pick (P : F -> Prop) (a b c : F) :
  P a -> P b -> P c -> P (std_min3 a b c).
Proof.
  intros Ha Hb Hc. unfold std_min3.
  destruct (b <? a)%fl; [destruct (c <? b)%fl | destruct (c <? a)%fl]; assumption.
Qed.

Lemma std_max3_pick (P : F -> Prop) (a b c : F) :
  P a -> P b -> P c -> P (std_max3 a b c).
Proof.
  intros Ha Hb Hc. unfold std_max3.
  destruct (a <? b)%fl; [destruct (b <? c)%fl | destruct (a <? c)%fl]; assumption.
Qed.

Lemma clamp_low (m : F) :
  int_fits m = true -> 0 <= to_int (std_max (flit 0 1) m).
Proof.
  intros Hm. unfold std_max. destruct (flit 0 1 <? m)%fl eqn:E.
  - apply to_int_pos; assumption.
  - rewrite to_int_zero. lia.
Qed.

Lemma clamp_high (m : F) (n : Z) :
  0 <= n <= 2 ^ 24 -> int_fits m = true ->
  to_int (std_min (of_int n) m) <= n.
Proof.
  intros Hn Hm. unfold std_min. destruct (m <? of_int n)%fl eqn:E.
  - apply to_int_below; assumption.
  - rewrite to_int_of_int by exact Hn. lia.
Qed.

(** Where the six screen coordinates fit in an [int], the box lies inside
    the screen. *)
Lemma bbox_clamped (v0 v1 v2 : Vertex F) :
  Forall (fun t => int_fits t = true)
    [screen_x v0; screen_x v1; screen_x v2;
     screen_y v0; screen_y v1; screen_y v2] ->
  let '(minx, maxx, miny, maxy) := bbox v0 v1 v2 in
  0 <= minx /\ maxx <= W - 1 /\ 0 <= miny /\ maxy <= H - 1.
Proof.
  intros Hfit.
  repeat (apply Forall_cons in Hfit as [? Hfit]).
  unfold bbox, bbox_bounds. repeat split.
  - apply clamp_low, std_min3_pick; assumption.
  - apply clamp_high; [unfold W; lia | apply std_max3_pick; assumption].
  - apply clamp_low, std_min3_pick; assumption.
  - apply clamp_high; [unfold H; lia | apply std_max3_pick; assumption].
Qed.
End BoundingBox.

(** ** The rasterizer: culling and memory safety *)

Section Rasterizer.
Context {F : Type} {SF : Scalar F}.
Implicit Types (s : buffers F) (v : Vertex F).

Lemma raster_loop_sized v0 v1 v2 (area : F) (box : Z * Z * Z * Z) s :
  sized s -> exists s', raster_loop v0 v1 v2 area box s = Some s' /\ sized s'.
Proof.
  intros Hs. destruct box as [[[minx maxx] miny] maxy]. unfold raster_loop.
  apply (for_each_invariant sized); [| exact Hs].
  intros y t _ Ht.
  apply (for_each_invariant sized); [| exact Ht].
  intros x u _ Hu.
  rewrite draw_pixel_fragments. apply run_fragments_sized. exact Hu.
Qed.

(** C2. A triangle whose screen-space edge function is less than or equal
    to zero (clockwise, or of zero area) is discarded whole: [draw_triangle]
    hands no fragment to [fb_set] and returns both buffers as they were. *)
Theorem draw_triangle_culls_clockwise v0 v1 v2 s :
  (edge (screen_x v0) (screen_y v0) (screen_x v1) (screen_y v1)
        (screen_x v2) (screen_y v2) <=? of_int 0)%fl = true ->
  triangle_fragments v0 v1 v2 = [] /\ draw_triangle v0 v1 v2 s = Some s.
Proof.
  intros Hcull. unfold triangle_fragments, draw_triangle.
  rewrite Hcull. split; reflexivity.
Qed.

End Rasterizer.

(** ** The depth test *)

Section DepthTest.
Context {F : Type} {SF : Scalar F}.
Implicit Types (s : buffers F) (d : F) (c : Z).

Lemma fb_set_at_pixel x y d c s cur :
  sized s -> 0 <= x < W -> 0 <= y < H ->
  db s !! pixel_index x y = Some cur ->
  exists s', fb_set x y d c s = Some s' /\ sized s' /\
    ((d <? cur)%fl = true ->
       db s' !! pixel_index x y = Some d /\ fb s' !! pixel_index x y = Some c) /\
    ((d <? cur)%fl = false -> s' = s) /\
    (forall j : nat, j <> pixel_index x y ->
       db s' !! j = db s !! j /\ fb s' !! j = fb s !! j).
Proof.
  intros Hs Hx Hy Hcur.
  destruct (fb_set_inside x y d c s Hs Hx Hy) as (cur' & Hcur' & Hset).
  assert (cur' = cur) by congruence. subst cur'.
  destruct (fb_set_sized x y d c s Hs) as (s' & Hset' & Hs').
  exists s'. split; [exact Hset' |]. split; [exact Hs' |].
  rewrite Hset in Hset'. injection Hset' as <-.
  destruct (pixel_index_lt x y Hx Hy) as [_ Hlt]. destruct Hs as [Hfb Hdb].
  destruct (d <? cur)%fl; cbn [fb db].
  - split; [intros _ | split; [discriminate |]].
    + rewrite !list_lookup_insert_eq by lia. split; reflexivity.
    + intros j Hj. rewrite !list_lookup_insert_ne by congruence. split; reflexivity.
  - split; [discriminate | split; [reflexivity |]].
    intros j _. split; reflexivity.
Qed.

Lemma draw_triangles_fragments (tris : list (Vertex F * Vertex F * Vertex F)) s :
  for_each tris (fun t s => draw_triangle t.1.1 t.1.2 t.2 s) s =
  run_fragments (flat_map (fun t => triangle_fragments t.1.1 t.1.2 t.2) tris) s.
Proof.
  unfold run_fragments. rewrite <- for_each_flat.
  apply for_each_ext. intros t u. apply draw_triangle_fragments.
Qed.

Context {OL : OrderLaws F}.

(** C3. For a pixel on the screen, [fb_set] writes the depth buffer and the
    framebuffer at that pixel exactly when the supplied depth is strictly
    less than the depth stored there, and otherwise returns the buffers
    unchanged; no entry at another index changes.  Hence over a frame (a
    clear, then fragments in order, in particular those of any sequence of
    triangles) every pixel holds a depth no fragment sent to it beats,
    paired with the color of the fragment that brought it. *)
Theorem fb_set_keeps_nearest x y d c s bg
  (frs : list (fragment F)) (tris : list (Vertex F * Vertex F * Vertex F)) :
  sized s -> 0 <= x < W -> 0 <= y < H ->
  (exists cur s',
     db s !! pixel_index x y = Some cur /\
     fb_set x y d c s = Some s' /\
     ((d <? cur)%fl = true ->
        db s' !! pixel_index x y = Some d /\ fb s' !! pixel_index x y = Some c) /\
     ((d <? cur)%fl = false -> s' = s) /\
     (forall j : nat, j <> pixel_index x y ->
        db s' !! j = db s !! j /\ fb s' !! j = fb s !! j)) /\
  (exists s_end,
     run_fragments frs (fb_clear bg) = Some s_end /\ nearest_kept bg frs s_end) /\
  (exists s_end,
     for_each tris (fun t s => draw_triangle t.1.1 t.1.2 t.2 s) (fb_clear bg)
       = Some s_end /\
     nearest_kept bg (flat_map (fun t => triangle_fragments t.1.1 t.1.2 t.2) tris)
       s_end).
Proof.
  intros Hs Hx Hy. split; [| split].
  - destruct (pixel_index_lt x y Hx Hy) as [_ Hlt].
    destruct (lookup_lt_is_Some_2 (db s) (pixel_index x y)) as [cur Hcur].
    { destruct Hs as [_ Hdb]. lia. }
    destruct (fb_set_at_pixel x y d c s cur Hs Hx Hy Hcur)
      as (s' & Hset & _ & Hwr & Hno & Hoth).
    exists cur, s'.
    split; [exact Hcur | split; [exact Hset | split; [exact Hwr | split; [exact Hno | exact Hoth]]]].
  - apply (nearest_kept_run bg frs [] (fb_clear bg)), nearest_kept_clear.
  - rewrite draw_triangles_fragments.
    apply (nearest_kept_run bg _ [] (fb_clear bg)), nearest_kept_clear.
Qed.

(** C1, amended.  Two fragments sent to one pixel in order: with equal
    depths the second is discarded, so the pixel keeps what the first left
    (the first fragment's color when it passed the depth test); and when the
    second depth is strictly less than the first and than the depth stored
    before both, the pixel ends with the second color in either order. *)
Theorem depth_tie_keeps_first x y d1 d2 c1 c2 s cur :
  sized s -> 0 <= x < W -> 0 <= y < H ->
  db s !! pixel_index x y = Some cur ->
  (exists s1,
     fb_set x y d1 c1 s = Some s1 /\ fb_set x y d1 c2 s1 = Some s1 /\
     ((d1 <? cur)%fl = true -> fb s1 !! pixel_index x y = Some c1)) /\
  ((d2 <? d1)%fl = true -> (d2 <? cur)%fl = true ->
   exists s12 s21,
     fb_set x y d1 c1 s ≫= fb_set x y d2 c2 = Some s12 /\
     fb_set x y d2 c2 s ≫= fb_set x y d1 c1 = Some s21 /\
     fb s12 !! pixel_index x y = Some c2 /\
     fb s21 !! pixel_index x y = Some c2).
Proof.
  intros Hs Hx Hy Hcur.
  destruct (fb_set_at_pixel x y d1 c1 s cur Hs Hx Hy Hcur)
    as (s1 & Hset1 & Hs1 & Hwr1 & Hno1 & _).
  split.
  - exists s1. split; [exact Hset1 |].
    destruct (d1 <? cur)%fl eqn:Htest.
    + destruct (Hwr1 eq_refl) as [Hd1 Hc1].
      destruct (fb_set_at_pixel x y d1 c2 s1 d1 Hs1 Hx Hy Hd1)
        as (s2 & Hset2 & _ & _ & Hno2 & _).
      rewrite (Hno2 (flt_irrefl d1)) in Hset2. split; [exact Hset2 | intros _; exact Hc1].
    + rewrite (Hno1 eq_refl) in *.
      destruct (fb_set_at_pixel x y d1 c2 s cur Hs Hx Hy Hcur)
        as (s2 & Hset2 & _ & _ & Hno2 & _).
      rewrite (Hno2 Htest) in Hset2. split; [exact Hset2 | discriminate].
  - intros H21 H2cur.
    destruct (fb_set_at_pixel x y d2 c2 s cur Hs Hx Hy Hcur)
      as (t2 & Hsett2 & Hst2 & Hwrt2 & _ & _).
    destruct (Hwrt2 H2cur) as [Hdt2 Hct2].
    destruct (fb_set_at_pixel x y d1 c1 t2 d2 Hst2 Hx Hy Hdt2)
      as (t21 & Hsett21 & _ & _ & Hnot21 & _).
    rewrite (Hnot21 (flt_asym d2 d1 H21)) in Hsett21.
    assert (Hd1 : exists cur1, db s1 !! pixel_index x y = Some cur1 /\
                               (d2 <? cur1)%fl = true).
    { destruct (d1 <? cur)%fl eqn:Htest.
      - exists d1. split; [apply (Hwr1 eq_refl) | exact H21].
      - exists cur. rewrite (Hno1 eq_refl). split; assumption. }
    destruct Hd1 as (cur1 & Hcur1 & H2cur1).
    destruct (fb_set_at_pixel x y d2 c2 s1 cur1 Hs1 Hx Hy Hcur1)
      as (s12 & Hset12 & _ & Hwr12 & _ & _).
    exists s12, t2. rewrite Hset1, Hsett2. cbn [mbind option_bind].
    repeat split; try assumption. apply (Hwr12 H2cur1).
Qed.
End DepthTest.

(** ** Vectors in real arithmetic *)

Section RealVectors.
Import RealScalar.
Local Open Scope R_scope.
Implicit Types (v l n : math3d.vec3d R).

Lemma dot_self_nonneg v : 0 <= math3d.dot v v.
Proof. destruct v as [a b c]. cbn. nra. Qed.

Lemma dot_self_zero v : math3d.dot v v = 0 -> v = math3d.mkvec 0 0 0.
Proof.
  destruct v as [a b c]. cbn. intros Hz.
  assert (a = 0) by nra. assert (b = 0) by nra. assert (c = 0) by nra.
  subst. reflexivity.
Qed.

Lemma length_sq v : math3d.length v * math3d.length v = math3d.dot v v.
Proof. unfold math3d.length. apply sqrt_sqrt. apply (dot_self_nonneg v). Qed.

Lemma length_nonzero v : v <> math3d.mkvec 0 0 0 -> math3d.length v <> 0.
Proof.
  intros Hv Hlen. apply Hv, dot_self_zero.
  rewrite <- length_sq, Hlen. lra.
Qed.

Lemma normalized_unit v :
  v <> math3d.mkvec 0 0 0 -> math3d.dot (math3d.normalized v) (math3d.normalized v) = 1.
Proof.
  intros Hv. pose proof (length_nonzero v Hv) as Hlen.
  pose proof (length_sq v) as Hsq.
  unfold math3d.normalized, math3d.sdiv, math3d.dot in *.
  cbn [math3d.x math3d.y math3d.z fadd fmul fdiv real_scalar] in *.
  set (L := math3d.length v) in *.
  replace (math3d.x v / L * (math3d.x v / L) + math3d.y v / L * (math3d.y v / L)
           + math3d.z v / L * (math3d.z v / L))
    with ((math3d.x v * math3d.x v + math3d.y v * math3d.y v
           + math3d.z v * math3d.z v) / (L * L)) by (field; exact Hlen).
  rewrite Hsq. field. rewrite <- Hsq. nra.
Qed.

Lemma normalized_at_most_unit v :
  math3d.dot (math3d.normalized v) (math3d.normalized v) <= 1.
Proof.
  destruct (Req_dec_T (math3d.dot v v) 0) as [Hz | Hnz].
  - apply dot_self_zero in Hz. subst v. unfold math3d.normalized. cbn.
    unfold Rdiv. rewrite !Rmult_0_l. lra.
  - rewrite normalized_unit; [lra |]. intros ->. apply Hnz. cbn. ring.
Qed.

Lemma dot_at_most_one n l :
  math3d.dot n n <= 1 -> math3d.dot l l = 1 -> math3d.dot n l <= 1.
Proof.
  destruct n as [a b c], l as [p q r]. cbn. intros Hn Hl.
  pose proof (Rle_0_sqr (a * q - b * p)) as H1.
  pose proof (Rle_0_sqr (b * r - c * q)) as H2.
  pose proof (Rle_0_sqr (c * p - a * r)) as H3.
  pose proof (Rle_0_sqr (a * p + b * q + c * r - 1)) as H4.
  unfold Rsqr in *.
  assert (Hcs : (a * p + b * q + c * r) * (a * p + b * q + c * r)
                <= (a * a + b * b + c * c) * (p * p + q * q + r * r)).
  { replace ((a * a + b * b + c * c) * (p * p + q * q + r * r))
      with ((a * p + b * q + c * r) * (a * p + b * q + c * r)
            + ((a * q - b * p) * (a * q - b * p)
               + (b * r - c * q) * (b * r - c * q)
               + (c * p - a * r) * (c * p - a * r))) by ring.
    lra. }
  rewrite Hl, Rmult_1_r in Hcs.
  set (t := a * p + b * q + c * r) in *.
  destruct (Rle_dec t 1) as [Hle | Hgt]; [exact Hle |].
  exfalso. assert (1 < t) by lra. assert (t * 1 < t * t) by (apply Rmult_lt_compat_l; lra).
  lra.
Qed.

Lemma sub_nonzero (a b : math3d.vec3d R) :
  a <> b -> math3d.sub a b <> math3d.mkvec 0 0 0.
Proof.
  destruct a as [a1 a2 a3], b as [b1 b2 b3]. cbn. intros Hab [= H1 H2 H3].
  apply Hab. f_equal; lra.
Qed.

Lemma cross_normalized_nonzero (d up : math3d.vec3d R) :
  d <> math3d.mkvec 0 0 0 ->
  math3d.cross d up <> math3d.mkvec 0 0 0 ->
  math3d.cross (math3d.normalized d) up <> math3d.mkvec 0 0 0.
Proof.
  intros Hd Hcross Hz. apply Hcross.
  pose proof (length_nonzero d Hd) as Hlen.
  unfold math3d.normalized in Hz.
  destruct d as [d1 d2 d3], up as [u1 u2 u3]. cbn -[sqrt] in Hz, Hlen |- *.
  set (L := sqrt (d1 * d1 + d2 * d2 + d3 * d3)) in *.
  injection Hz as H1 H2 H3.
  assert (E1 : d2 * u3 - d3 * u2 = (d2 / L * u3 - d3 / L * u2) * L) by (field; exact Hlen).
  assert (E2 : d3 * u1 - d1 * u3 = (d3 / L * u1 - d1 / L * u3) * L) by (field; exact Hlen).
  assert (E3 : d1 * u2 - d2 * u1 = (d1 / L * u2 - d2 / L * u1) * L) by (field; exact Hlen).
  rewrite H1 in E1. rewrite H2 in E2. rewrite H3 in E3.
  rewrite Rmult_0_l in E1, E2, E3.
  unfold math3d.cross. cbn. f_equal; assumption.
Qed.
End RealVectors.

(** ** The math kernel in real arithmetic *)

Section RealKernel.
Import RealScalar.
Local Open Scope R_scope.

(** C6. [rotateY a] has [cos a] at (column, row) (0,0) and (2,2), [sin a]
    at (2,0) and [- sin a] at (0,2), for every angle and over every scalar
    type; in real arithmetic, as a direction transform, the quarter turn
    [rotateY (PI/2)] sends (0, 0, -1) to (-1, 0, 0). *)
Theorem rotateY_entries_and_quarter_turn :
  (forall (F : Type) (SF : Scalar F) (T : Trig F) (a : F),
     (math3d.rotateY a).[0][0] = fcos a /\
     (math3d.rotateY a).[2][2] = fcos a /\
     (math3d.rotateY a).[2][0] = fsin a /\
     (math3d.rotateY a).[0][2] = fneg (fsin a)) /\
  (forall a : R,
     (math3d.rotateY a).[0][0] = cos a /\
     (math3d.rotateY a).[2][2] = cos a /\
     (math3d.rotateY a).[2][0] = sin a /\
     (math3d.rotateY a).[0][2] = - sin a) /\
  math3d.transform_dir (math3d.rotateY (PI / 2)) (math3d.mkvec 0 0 (-1))
    = math3d.mkvec (-1) 0 0.
Proof.
  split; [| split].
  - intros F SF T a. repeat split; reflexivity.
  - intros a. repeat split; reflexivity.
  - unfold math3d.transform_dir. cbn -[PI cos sin].
    rewrite cos_PI2, sin_PI2. f_equal; lra.
Qed.

(** C4. With the field of view in (0, PI), a nonzero aspect and
    0 < near < far, the focal scale [1 / tan (fov / 2)] is a positive number
    and the point transform of the perspective matrix sends (0, 0, -near) to
    NDC z = -1 and (0, 0, -far) to NDC z = +1. *)
Theorem perspective_maps_near_far (fov aspect near far : R) :
  0 < fov < PI -> aspect <> 0 -> 0 < near < far ->
  0 < (math3d.perspective fov aspect near far).[1][1] /\
  math3d.z (math3d.transform (math3d.perspective fov aspect near far)
              (math3d.mkvec 0 0 (- near))) = -1 /\
  math3d.z (math3d.transform (math3d.perspective fov aspect near far)
              (math3d.mkvec 0 0 (- far))) = 1.
Proof.
  intros Hfov Haspect Hnf. unfold math3d.transform. cbn -[tan].
  split; [| split; field; lra].
  assert (Htan : 0 < tan (fov * (5 / 10))) by (apply tan_gt_0; lra).
  apply Rdiv_lt_0_compat; lra.
Qed.

End RealKernel.

(** ** Packed colors *)

Lemma testbit_small (a k n : Z) : 0 <= a < 2 ^ k -> k <= n -> Z.testbit a n = false.
Proof.
  intros [Ha Hk] Hn.
  destruct (Z.eq_dec a 0) as [-> | Hne]; [apply Z.bits_0 |].
  apply Z.bits_above_log2; [exact Ha |].
  assert (Z.log2 a < k) by (apply Z.log2_lt_pow2; lia). lia.
Qed.

Lemma testbit_255 (n : Z) : 0 <= n -> Z.testbit 255 n = (n <? 8).
Proof.
  intros Hn. change 255 with (Z.ones 8).
  rewrite Z.testbit_ones_nonneg by lia.
  destruct (Z.ltb_spec n 8); reflexivity.
Qed.

Lemma testbit_alpha (n : Z) : 0 <= n < 24 -> Z.testbit 0xFF000000 n = false.
Proof.
  intros Hn. change 0xFF000000 with (Z.shiftl 255 24).
  rewrite Z.shiftl_spec by lia. apply Z.testbit_neg_r. lia.
Qed.

Lemma chan_pack (r g b : Z) :
  0 <= r < 256 -> 0 <= g < 256 -> 0 <= b < 256 ->
  chan 16 (pack r g b) = r /\ chan 8 (pack r g b) = g /\ chan 0 (pack r g b) = b.
Proof.
  intros Hr Hg Hb. unfold chan, pack.
  repeat split; apply Z.bits_inj'; intros n Hn;
    rewrite Z.land_spec, Z.shiftr_spec, !Z.lor_spec, !Z.shiftl_spec, testbit_255 by lia;
    destruct (Z.ltb_spec n 8) as [Hlt | Hge];
    rewrite ?Bool.andb_false_r, ?Bool.andb_true_r;
    rewrite ?(testbit_small r 8 n), ?(testbit_small g 8 n), ?(testbit_small b 8 n) by lia;
    try reflexivity;
    rewrite testbit_alpha by lia;
    rewrite ?(testbit_small r 8) , ?(testbit_small g 8), ?(testbit_small b 8) by lia;
    rewrite ?(Z.testbit_neg_r _ (n + 0 - 16)), ?(Z.testbit_neg_r _ (n + 0 - 8)),
      ?(Z.testbit_neg_r _ (n + 8 - 16)) by lia;
    cbn [orb]; rewrite ?Bool.orb_false_r; f_equal; lia.
Qed.

(** ** Which colors a frame can hold *)

Section Colors.
Context {F : Type} {SF : Scalar F}.
Implicit Types (s : buffers F).

Lemma fb_set_color x y (d : F) c s s' :
  fb_set x y d c s = Some s' ->
  forall j : nat, fb s' !! j = fb s !! j \/ fb s' !! j = Some c.
Proof.
  unfold fb_set.
  destruct (_ || _); [intros [= <-] j; left; reflexivity |].
  destruct (arr_get (db s) (y * W + x)) as [cur |]; [| discriminate].
  destruct (d <? cur)%fl; [| intros [= <-] j; left; reflexivity].
  destruct (arr_set (db s) (y * W + x) d) as [db' |]; [| discriminate].
  unfold arr_set.
  destruct (_ || _) eqn:E; [discriminate |].
  intros [= <-] j. cbn [fb].
  apply Bool.orb_false_elim in E as [E1 E2].
  apply Z.ltb_ge in E1. apply Z.leb_gt in E2.
  destruct (decide (j = Z.to_nat (y * W + x))) as [-> | Hne].
  - right. apply list_lookup_insert_eq. lia.
  - left. apply list_lookup_insert_ne. congruence.
Qed.

Lemma run_fragments_colors (frs : list (fragment F)) : forall s s',
  run_fragments frs s = Some s' ->
  forall j : nat, fb s' !! j = fb s !! j \/
    exists fr, fr ∈ frs /\ fb s' !! j = Some (frag_color fr).
Proof.
  unfold run_fragments.
  induction frs as [| fr frs IH]; intros s s' Hrun j; cbn [for_each] in Hrun.
  - injection Hrun as <-. left. reflexivity.
  - destruct (fb_set _ _ _ _ s) as [s1 |] eqn:Hset; [| discriminate].
    destruct (IH s1 s' Hrun j) as [Hsame | (fr' & Hin & Hc)].
    + rewrite Hsame. destruct (fb_set_color _ _ _ _ _ _ Hset j) as [-> | Hc].
      * left. reflexivity.
      * right. exists fr. split; [left | exact Hc].
    + right. exists fr'. split; [right; exact Hin | exact Hc].
Qed.

Lemma draw_face_with_calls {S : Type} (raster : Vertex F -> Vertex F -> Vertex F -> S -> option S)
  mvp model light_dir f (t : S) :
  let pv i := project mvp (corner f i) (face_shaded model light_dir f) in
  draw_face_with raster mvp model light_dir f t =
  match raster (pv 0%nat) (pv 1%nat) (pv 2%nat) t with
  | Some t' => raster (pv 0%nat) (pv 2%nat) (pv 3%nat) t'
  | None => None
  end.
Proof. reflexivity. Qed.
End Colors.

(** ** The rasterizer in real arithmetic *)

Section RealRaster.
Import RealScalar RealLaws.
Local Open Scope R_scope.

Lemma edge_sum (ax ay bx by_ cx cy px py : R) :
  edge bx by_ cx cy px py + edge cx cy ax ay px py + edge ax ay bx by_ px py
  = edge ax ay bx by_ cx cy.
Proof. unfold edge. cbn. ring. Qed.

Lemma weights_real (sx0 sy0 sx1 sy1 sx2 sy2 area : R) (x y : Z) w0 w1 w2 :
  area = edge sx0 sy0 sx1 sy1 sx2 sy2 -> 0 < area ->
  weights sx0 sy0 sx1 sy1 sx2 sy2 area x y = Some (w0, w1, w2) ->
  0 <= w0 /\ 0 <= w1 /\ 0 <= w2 /\ w0 + w1 + w2 = 1.
Proof.
  intros Harea Hpos. unfold weights.
  cbn [flt fadd of_int flit real_scalar fdiv].
  set (px := IZR x + 5 / 10). set (py := IZR y + 5 / 10).
  destruct (ltb (edge sx1 sy1 sx2 sy2 px py) 0) eqn:E0; [discriminate |].
  destruct (ltb (edge sx2 sy2 sx0 sy0 px py) 0) eqn:E1; [discriminate |].
  destruct (ltb (edge sx0 sy0 sx1 sy1 px py) 0) eqn:E2; [discriminate |].
  cbn [orb]. intros [= <- <- <-].
  apply ltb_false in E0, E1, E2.
  pose proof (edge_sum sx0 sy0 sx1 sy1 sx2 sy2 px py) as Hsum.
  rewrite <- Harea in Hsum.
  repeat split.
  1-3: apply Rmult_le_pos; [assumption | left; apply Rinv_0_lt_compat; assumption].
  rewrite <- !Rdiv_plus_distr.
  apply (Rmult_eq_reg_r area); [| lra].
  unfold Rdiv. rewrite Rmult_assoc, Rinv_l, Rmult_1_r, Rmult_1_l by lra.
  rewrite <- Hsum. unfold edge. cbn. ring.
Qed.

Lemma to_u8_IZR (n : Z) : (0 <= n < 256)%Z -> to_u8 (IZR n) = n.
Proof.
  intros Hn. cbn [to_u8 real_scalar]. rewrite trunc_IZR. apply Z.mod_small. exact Hn.
Qed.

Lemma to_u8_range (v : R) : (0 <= to_u8 v < 256)%Z.
Proof. cbn [to_u8 real_scalar]. apply Z.mod_pos_bound. lia. Qed.

Lemma interpolate_uniform (v0 v1 v2 : Vertex R) (r g b : Z) (w0 w1 w2 : R) :
  (0 <= r < 256)%Z -> (0 <= g < 256)%Z -> (0 <= b < 256)%Z ->
  color v0 = pack r g b -> color v1 = pack r g b -> color v2 = pack r g b ->
  w0 + w1 + w2 = 1 ->
  (interpolate v0 v1 v2 (w0, w1, w2)).2 = pack r g b.
Proof.
  intros Hr Hg Hb H0 H1 H2 Hsum.
  destruct (chan_pack r g b Hr Hg Hb) as (Hcr & Hcg & Hcb).
  unfold interpolate. cbn [snd]. rewrite H0, H1, H2, Hcr, Hcg, Hcb.
  cbn [fadd fmul of_int real_scalar].
  replace (w0 * IZR r + w1 * IZR r + w2 * IZR r) with (IZR r) by nra.
  replace (w0 * IZR g + w1 * IZR g + w2 * IZR g) with (IZR g) by nra.
  replace (w0 * IZR b + w1 * IZR b + w2 * IZR b) with (IZR b) by nra.
  rewrite !to_u8_IZR by assumption. reflexivity.
Qed.

Lemma triangle_fragments_uniform (v0 v1 v2 : Vertex R) (r g b : Z) :
  (0 <= r < 256)%Z -> (0 <= g < 256)%Z -> (0 <= b < 256)%Z ->
  color v0 = pack r g b -> color v1 = pack r g b -> color v2 = pack r g b ->
  forall fr, fr ∈ triangle_fragments v0 v1 v2 -> frag_color fr = pack r g b.
Proof.
  intros Hr Hg Hb H0 H1 H2 fr. unfold triangle_fragments.
  set (area := edge _ _ _ _ _ _).
  cbn [fle feq real_scalar of_int].
  destruct (leb area 0) eqn:Ecull; [intros Hin; inversion Hin |].
  destruct (eqb area 0); [intros Hin; inversion Hin |].
  apply leb_false in Ecull.
  destruct (bbox v0 v1 v2) as [[[minx maxx] miny] maxy].
  intros Hin.
  apply list_elem_of_In, in_flat_map in Hin as (y & _ & Hin).
  apply in_flat_map in Hin as (x & _ & Hin).
  unfold pixel_fragments in Hin.
  destruct (weights _ _ _ _ _ _ area x y) as [[[w0 w1] w2] |] eqn:Hw; [| inversion Hin].
  apply weights_real in Hw as (_ & _ & _ & Hsum); [| reflexivity | exact Ecull].
  pose proof (interpolate_uniform v0 v1 v2 r g b w0 w1 w2 Hr Hg Hb H0 H1 H2 Hsum) as Hc.
  destruct (interpolate v0 v1 v2 (w0, w1, w2)) as [d c]. cbn [snd] in Hc.
  destruct Hin as [<- | []]. exact Hc.
Qed.
End RealRaster.

(** ** Shading in real arithmetic *)

Section RealShading.
Import RealScalar RealLaws.
Local Open Scope R_scope.

Lemma face_diffuse_bounds model l f :
  l <> math3d.mkvec 0 0 0 ->
  let light_dir := math3d.normalized l in
  face_diffuse model light_dir f
    = Rmax (15 / 100) (math3d.dot (face_normal model f) light_dir) /\
  15 / 100 <= face_diffuse model light_dir f <= 1.
Proof.
  intros Hl light_dir.
  assert (Hdot : math3d.dot (face_normal model f) light_dir <= 1).
  { apply dot_at_most_one; [apply normalized_at_most_unit | apply normalized_unit, Hl]. }
  unfold face_diffuse, std_max. cbn [flt flit real_scalar].
  set (dt := math3d.dot (face_normal model f) light_dir) in *.
  destruct (ltb (15 / 100) dt) eqn:E.
  - apply ltb_true in E. rewrite Rmax_right by lra. split; [reflexivity | lra].
  - apply ltb_false in E. rewrite Rmax_left by lra. split; [reflexivity | lra].
Qed.

Lemma shade_channel (ch : Z) (d : R) :
  (0 <= ch < 256)%Z -> 15 / 100 <= d <= 1 ->
  to_u8 (IZR ch * d) = Int_part (IZR ch * d) /\
  (7 <= ch -> 1 <= to_u8 (IZR ch * d)%R)%Z.
Proof.
  intros Hch Hd.
  assert (Hlo : 0 <= IZR ch * d).
  { apply Rmult_le_pos; [apply IZR_le; lia | lra]. }
  assert (Hhi : IZR ch * d <= 255).
  { assert (IZR ch <= 255) by (apply IZR_le; lia).
    assert (0 <= IZR ch) by (apply IZR_le; lia). nra. }
  destruct (base_Int_part (IZR ch * d)) as [Hip1 Hip2].
  assert (Hip0 : (-1 < Int_part (IZR ch * d))%Z) by (apply lt_IZR; lra).
  assert (Hip255 : (Int_part (IZR ch * d) <= 255)%Z) by (apply le_IZR; lra).
  cbn [to_u8 real_scalar]. unfold trunc.
  destruct (Rle_dec 0 (IZR ch * d)); [| contradiction].
  rewrite Z.mod_small by lia. split; [reflexivity |].
  intros H7. assert (IZR 7 <= IZR ch) by (apply IZR_le; exact H7).
  assert (H1 : (0 < Int_part (IZR ch * d))%Z) by (apply lt_IZR; nra). lia.
Qed.
End RealShading.

(** ** What [draw_cube] submits *)

Section Submission.
Context {F : Type} {SF : Scalar F}.

Lemma draw_face_with_triangles {S : Type}
  (raster : Vertex F -> Vertex F -> Vertex F -> S -> option S)
  mvp model light_dir f (t : S) :
  draw_face_with raster mvp model light_dir f t =
  for_each (face_triangles mvp model light_dir f)
    (fun tr u => raster tr.1.1 tr.1.2 tr.2 u) t.
Proof.
  rewrite draw_face_with_calls. unfold face_triangles.
  cbn [for_each fst snd].
  destruct (raster _ _ _ t) as [t' |]; [| reflexivity].
  destruct (raster _ _ _ t'); reflexivity.
Qed.

(** C9. Handed a rasterizer that only records its calls, [draw_cube] submits
    exactly twelve triangles: for each of the six faces in turn, corners
    (0,1,2) then corners (0,2,3); [draw_cube] itself is that sequence of
    [draw_triangle] calls.  Every submitted vertex is the point transform of
    its corner by the full matrix [mvp], and its depth field is its own
    post-divide z, [wz / ww]. *)
Theorem draw_cube_submits_two_triangles_per_face
  (mvp model : math3d.mat4 F) (light_dir : math3d.vec3d F) :
  let submitted := flat_map (face_triangles mvp model light_dir) (seq 0 6) in
  draw_cube_with record_triangle mvp model light_dir [] = Some submitted /\
  length submitted = 12%nat /\
  (forall s, draw_cube mvp model light_dir s =
             for_each submitted (fun tr u => draw_triangle tr.1.1 tr.1.2 tr.2 u) s) /\
  (forall (v : math3d.vec3d F) (shaded : Z),
     let p := project mvp v shaded in
     pos p = math3d.transform mvp v /\
     depth p = math3d.z (pos p) /\
     depth p =
       ((math3d.x v * mvp.[0][2] + math3d.y v * mvp.[1][2]
         + math3d.z v * mvp.[2][2] + mvp.[3][2])
        / (math3d.x v * mvp.[0][3] + math3d.y v * mvp.[1][3]
           + math3d.z v * mvp.[2][3] + mvp.[3][3]))%fl /\
     color p = shaded).
Proof.
  intros submitted. split; [reflexivity |]. split; [reflexivity |]. split.
  - intros s. unfold draw_cube, draw_cube_with, submitted.
    rewrite <- for_each_flat. apply for_each_ext.
    intros f t. apply draw_face_with_triangles.
  - intros [vx vy vz] shaded. repeat split; reflexivity.
Qed.
End Submission.

(** ** Barycentric weights and flat shading, in real arithmetic *)

Section RealTheorems.
Import RealScalar RealLaws.
Local Open Scope R_scope.


Lemma face_colors_channels (f : nat) (sh : Z) :
  (f < 6)%nat -> sh ∈ [16; 8; 0]%Z ->
  (7 <= chan sh (nth f face_colors 0) < 256)%Z.
Proof.
  intros Hf Hsh.
  assert (Hall : Forall (fun fc => Forall (fun sh => 7 <= chan sh fc < 256)%Z [16; 8; 0]%Z)
                        face_colors).
  { repeat constructor; vm_compute; discriminate. }
  rewrite Forall_forall in Hall.
  assert (Hin : nth f face_colors 0%Z ∈ face_colors).
  { apply list_elem_of_In, nth_In. exact Hf. }
  specialize (Hall _ Hin). rewrite Forall_forall in Hall. apply Hall, Hsh.
Qed.

End RealTheorems.

(** * The properties at concrete inputs *)

Import Samples RealScalar RealLaws Binary32 Binary32Laws.

(** C1 as the specification words it fails: two identical triangles at depth
    0.3 are drawn in binary32 on a cleared buffer, red first and blue second.
    Both send a fragment of depth exactly 0.3f to pixel (1, 1), and the pixel
    ends red, the color of the first triangle. *)
Lemma last_write_wins_on_ties_counterexample :
  triangle_fragments (corner_a 3 10 red) (corner_b 3 10 red) (corner_c 3 10 red) !! 6%nat
    = Some (mkfrag 1 1 (flit 3 10) red) /\
  triangle_fragments (corner_a 3 10 blue) (corner_b 3 10 blue) (corner_c 3 10 blue) !! 6%nat
    = Some (mkfrag 1 1 (flit 3 10) blue) /\
  (draw_triangle (corner_a 3 10 red) (corner_b 3 10 red) (corner_c 3 10 red)
     (fb_clear clear_color)
   ≫= draw_triangle (corner_a 3 10 blue) (corner_b 3 10 blue) (corner_c 3 10 blue))
  ≫= (fun s => fb s !! pixel_index 1 1) = Some red /\
  red <> blue.
Proof.
  split; [vm_compute; reflexivity |].
  split; [vm_compute; reflexivity |].
  split; [vm_compute; reflexivity |].
  discriminate.
Qed.


(** Instances of the theorems above, their hypotheses discharged. *)

Lemma draw_triangle_culls_clockwise_witness :
  (edge (screen_x (corner_a 3 10 red)) (screen_y (corner_a 3 10 red))
        (screen_x (corner_c 3 10 red)) (screen_y (corner_c 3 10 red))
        (screen_x (corner_b 3 10 red)) (screen_y (corner_b 3 10 red))
     <=? of_int 0)%fl = true /\
  (triangle_fragments (corner_a 3 10 red) (corner_c 3 10 red) (corner_b 3 10 red) = [] /\
   draw_triangle (corner_a 3 10 red) (corner_c 3 10 red) (corner_b 3 10 red)
     (fb_clear clear_color) = Some (fb_clear clear_color)).
Proof.
  split; [vm_compute; reflexivity |].
  apply (draw_triangle_culls_clockwise (F := spec_float)).
  vm_compute. reflexivity.
Defined.


Lemma fb_set_keeps_nearest_witness :
  sized (fb_clear (F := spec_float) clear_color) /\ 0 <= 1 < W /\ 0 <= 1 < H /\
  exists s_end,
    for_each [(corner_a 3 10 red, corner_b 3 10 red, corner_c 3 10 red)]
      (fun t s => draw_triangle t.1.1 t.1.2 t.2 s) (fb_clear clear_color)
      = Some s_end /\
    nearest_kept clear_color
      (flat_map (fun t => triangle_fragments t.1.1 t.1.2 t.2)
         [(corner_a 3 10 red, corner_b 3 10 red, corner_c 3 10 red)])
      s_end.
Proof.
  split; [apply fb_clear_sized |].
  split; [unfold W; lia |]. split; [unfold H; lia |].
  apply (fb_set_keeps_nearest (F := spec_float) 1 1 (flit 3 10) red
           (fb_clear clear_color) clear_color []
           [(corner_a 3 10 red, corner_b 3 10 red, corner_c 3 10 red)]
           (fb_clear_sized clear_color)); [unfold W | unfold H]; lia.
Defined.

Lemma depth_tie_keeps_first_witness :
  sized (fb_clear (F := spec_float) clear_color) /\ 0 <= 1 < W /\ 0 <= 1 < H /\
  db (fb_clear (F := spec_float) clear_color) !! pixel_index 1 1 = Some FLT_MAX /\
  (flit 1 10 <? flit 9 10)%fl = true /\ (flit 1 10 <? (FLT_MAX : spec_float))%fl = true /\
  (exists s1,
     fb_set 1 1 (flit 9 10) red (fb_clear clear_color) = Some s1 /\
     fb_set 1 1 (flit 9 10) blue s1 = Some s1 /\
     (((flit 9 10 : spec_float) <? FLT_MAX)%fl = true -> fb s1 !! pixel_index 1 1 = Some red)) /\
  (exists s12 s21,
     fb_set 1 1 (flit 9 10) red (fb_clear clear_color) ≫= fb_set 1 1 (flit 1 10) blue
       = Some s12 /\
     fb_set 1 1 (flit 1 10) blue (fb_clear clear_color) ≫= fb_set 1 1 (flit 9 10) red
       = Some s21 /\
     fb s12 !! pixel_index 1 1 = Some blue /\
     fb s21 !! pixel_index 1 1 = Some blue).
Proof.
  assert (Hx : 0 <= 1 < W) by (unfold W; lia).
  assert (Hy : 0 <= 1 < H) by (unfold H; lia).
  assert (Hdb : db (fb_clear (F := spec_float) clear_color) !! pixel_index 1 1
                = Some FLT_MAX).
  { apply fb_clear_lookup. apply pixel_index_lt; assumption. }
  assert (H21 : (flit 1 10 <? flit 9 10)%fl = true) by (vm_compute; reflexivity).
  assert (H2m : (flit 1 10 <? (FLT_MAX : spec_float))%fl = true) by (vm_compute; reflexivity).
  pose proof (depth_tie_keeps_first (F := spec_float) 1 1 (flit 9 10) (flit 1 10)
                red blue (fb_clear clear_color) FLT_MAX
                (fb_clear_sized clear_color) Hx Hy Hdb) as [Htie Hnear].
  split; [apply fb_clear_sized |].
  split; [exact Hx |]. split; [exact Hy |]. split; [exact Hdb |].
  split; [exact H21 |]. split; [exact H2m |].
  split; [exact Htie | exact (Hnear H21 H2m)].
Defined.

Section RealWitnesses.
Local Open Scope R_scope.

Lemma perspective_maps_near_far_witness :
  0 < 1 < PI /\ 16 / 9 <> 0 /\ 0 < 1 / 10 < 100 /\
  0 < (math3d.perspective 1 (16 / 9) (1 / 10) 100).[1][1] /\
  math3d.z (math3d.transform (math3d.perspective 1 (16 / 9) (1 / 10) 100)
              (math3d.mkvec 0 0 (- (1 / 10)))) = -1 /\
  math3d.z (math3d.transform (math3d.perspective 1 (16 / 9) (1 / 10) 100)
              (math3d.mkvec 0 0 (- 100))) = 1.
Proof.
  assert (Hfov : 0 < 1 < PI) by (pose proof PI2_1; lra).
  assert (Hasp : 16 / 9 <> 0) by lra.
  assert (Hnf : 0 < 1 / 10 < 100) by lra.
  split; [exact Hfov |]. split; [exact Hasp |]. split; [exact Hnf |].
  exact (perspective_maps_near_far 1 (16 / 9) (1 / 10) 100 Hfov Hasp Hnf).
Defined.



End RealWitnesses.

(** The clamp on a concrete binary32 triangle that reaches far off the screen
    on every side: the box is the whole screen. *)
Example binary32_bbox_of_oversized_triangle :
  bbox (ndc_vertex (-3) 1 5 1 0 1 red) (ndc_vertex 7 1 5 1 0 1 red)
       (ndc_vertex (-3) 1 (-9) 1 0 1 red) = (0, 1279, 0, 719).
Proof. vm_compute. reflexivity. Qed.

(** * A remark on rounding

    The flat-shading property above is exact arithmetic.  In binary32 the
    interpolation [w0*c + w1*c + w2*c] of three equal channel values can round
    just below [c], and the cast then truncates it to [c - 1]: here a triangle
    whose three vertices carry 0xFFE74C3C writes 0xFFE64B3C at pixel (2, 1). *)

Remark binary32_interpolation_can_truncate_lower :
  head (filter (fun fr => bool_decide (frag_color fr <> 0xFFE74C3C))
          (triangle_fragments
             (ndc_vertex (-999) 1000 997 1000 3 10 0xFFE74C3C)
             (ndc_vertex (-980) 1000 990 1000 3 10 0xFFE74C3C)
             (ndc_vertex (-995) 1000 960 1000 3 10 0xFFE74C3C)))
  = Some (mkfrag 2 1 (S754_finite false 10066329 (-25)) 0xFFE64B3C).
Proof. vm_compute. reflexivity. Qed.
